(** * tsbb15_labs.lab2: the motion-field colour coding [gopimage] and the
    image grid [image_grid]

    The development embeds [src/tsbb15_labs/lab2.py].  numpy's [float64] and
    [complex128] arithmetic is read as exact arithmetic over Stdlib's reals:
    rounding and signed zeros are outside the model, and so are infinities
    and NaN, except in the scale of [gopimage] (module [Scale]).  numpy
    arrays are objects in a store, so that the in-place division [W /= max_mag]
    and the aliasing [W = V] are visible. *)

From Stdlib Require Import Reals QArith Qreals Lra Lia ZArith String List.
From stdpp Require Import base list.
Import ListNotations.

(** * Exceptions *)

Inductive exn : Type :=
| ValueError (msg : string)
| ZeroDivisionError (msg : string)
| IndexError (msg : string)
| Dangling.

Inductive result (A : Type) : Type :=
| Ok (a : A)
| Raise (e : exn).
Arguments Ok {A} a.
Arguments Raise {A} e.

(** [mapM] over [result]: the first exception wins, as for a numpy call that
    is applied to a whole array. *)
Fixpoint result_mapM {A B} (f : A -> result B) (l : list A) : result (list B) :=
  match l with
  | [] => Ok []
  | a :: l' =>
      match f a with
      | Raise e => Raise e
      | Ok b =>
          match result_mapM f l' with
          | Raise e => Raise e
          | Ok bs => Ok (b :: bs)
          end
      end
  end.

Definition result_bind {A B} (r : result A) (f : A -> result B) : result B :=
  match r with Ok a => f a | Raise e => Raise e end.

(** * Complex numbers ([complex128] read over the reals) *)

Module Cplx.
Local Open Scope R_scope.

Record complex : Type := Cx { re : R; im : R }.

Definition C0 : complex := Cx 0 0.
Definition Ci : complex := Cx 0 1.

Definition Cadd (a b : complex) : complex :=
  Cx (re a + re b) (im a + im b).

Definition Cmul (a b : complex) : complex :=
  Cx (re a * re b - im a * im b) (re a * im b + im a * re b).

Definition Cneg (a : complex) : complex := Cx (- re a) (- im a).

Definition Cdiv (a b : complex) : complex :=
  let d := re b * re b + im b * im b in
  Cx ((re a * re b + im a * im b) / d) ((im a * re b - re a * im b) / d).

Definition of_real (x : R) : complex := Cx x 0.

(** [np.abs] on a complex number. *)
Definition Cabs (a : complex) : R := sqrt (re a * re a + im a * im a).

(** [np.arctan2 y x], with values in (-pi, pi]. *)
Definition arctan2 (y x : R) : R :=
  if Rlt_dec 0 x then atan (y / x)
  else if Rlt_dec x 0 then
    if Rle_dec 0 y then atan (y / x) + PI else atan (y / x) - PI
  else if Rlt_dec 0 y then PI / 2
  else if Rlt_dec y 0 then - (PI / 2)
  else 0.

(** [np.angle z = arctan2 z.imag z.real]. *)
Definition angle (a : complex) : R := arctan2 (im a) (re a).

(** [np.clip x lo hi = minimum (maximum x lo) hi]. *)
Definition clip (x lo hi : R) : R := Rmin (Rmax x lo) hi.

End Cplx.
Export Cplx.

(** * The colour table *)

Definition rgbQ : Type := (Q * Q * Q)%type.
Definition rgb : Type := (R * R * R)%type.

(** [GOPTABLE], lab2.py lines 140-395, entry for entry. *)
Definition GOPTABLE : list (Q * Q * Q) :=
  [(0.28125, 0.90234375, 0.140625);
   (0.26953125, 0.91015625, 0.1484375);
   (0.2578125, 0.9140625, 0.16015625);
   (0.24609375, 0.921875, 0.16796875);
   (0.234375, 0.9296875, 0.1796875);
   (0.22265625, 0.93359375, 0.19140625);
   (0.2109375, 0.94140625, 0.203125);
   (0.203125, 0.94921875, 0.21484375);
   (0.1953125, 0.953125, 0.23046875);
   (0.18359375, 0.95703125, 0.2421875);
   (0.17578125, 0.96484375, 0.25390625);
   (0.16796875, 0.96875, 0.26953125);
   (0.1640625, 0.97265625, 0.28515625);
   (0.15625, 0.9765625, 0.296875);
   (0.1484375, 0.98046875, 0.3125);
   (0.14453125, 0.984375, 0.328125);
   (0.140625, 0.98828125, 0.34375);
   (0.13671875, 0.9921875, 0.359375);
   (0.1328125, 0.9921875, 0.375);
   (0.1328125, 0.9921875, 0.39453125);
   (0.12890625, 0.99609375, 0.41015625);
   (0.12890625, 0.99609375, 0.4296875);
   (0.12890625, 0.99609375, 0.4453125);
   (0.12890625, 0.99609375, 0.46484375);
   (0.12890625, 0.99609375, 0.48046875);
   (0.1328125, 0.9921875, 0.5);
   (0.1328125, 0.9921875, 0.51953125);
   (0.13671875, 0.98828125, 0.53515625);
   (0.140625, 0.984375, 0.5546875);
   (0.14453125, 0.98046875, 0.57421875);
   (0.15234375, 0.9765625, 0.58984375);
   (0.15625, 0.97265625, 0.609375);
   (0.1640625, 0.96484375, 0.62890625);
   (0.171875, 0.9609375, 0.6484375);
   (0.1796875, 0.953125, 0.6640625);
   (0.19140625, 0.9453125, 0.68359375);
   (0.19921875, 0.9375, 0.703125);
   (0.2109375, 0.9296875, 0.71875);
   (0.21875, 0.921875, 0.73828125);
   (0.23046875, 0.91015625, 0.75390625);
   (0.2421875, 0.8984375, 0.76953125);
   (0.2578125, 0.890625, 0.7890625);
   (0.26953125, 0.87890625, 0.8046875);
   (0.28515625, 0.8671875, 0.8203125);
   (0.296875, 0.8515625, 0.83203125);
   (0.3125, 0.83984375, 0.84765625);
   (0.328125, 0.828125, 0.86328125);
   (0.34375, 0.8125, 0.875);
   (0.359375, 0.796875, 0.890625);
   (0.375, 0.78515625, 0.90234375);
   (0.390625, 0.76953125, 0.9140625);
   (0.41015625, 0.75390625, 0.92578125);
   (0.42578125, 0.73828125, 0.93359375);
   (0.44140625, 0.72265625, 0.9453125);
   (0.4609375, 0.70703125, 0.953125);
   (0.4765625, 0.6875, 0.9609375);
   (0.49609375, 0.671875, 0.96875);
   (0.51171875, 0.65625, 0.9765625);
   (0.53125, 0.63671875, 0.98046875);
   (0.546875, 0.62109375, 0.984375);
   (0.5625, 0.6015625, 0.98828125);
   (0.58203125, 0.5859375, 0.9921875);
   (0.59765625, 0.56640625, 0.99609375);
   (0.61328125, 0.55078125, 0.99609375);
   (0.62890625, 0.53125, 0.99609375);
   (0.64453125, 0.515625, 0.99609375);
   (0.66015625, 0.49609375, 0.99609375);
   (0.67578125, 0.48046875, 0.9921875);
   (0.69140625, 0.46484375, 0.98828125);
   (0.70703125, 0.4453125, 0.984375);
   (0.71875, 0.4296875, 0.98046875);
   (0.73046875, 0.4140625, 0.9765625);
   (0.74609375, 0.39453125, 0.96875);
   (0.7578125, 0.37890625, 0.9609375);
   (0.76953125, 0.36328125, 0.953125);
   (0.78125, 0.34765625, 0.9453125);
   (0.7890625, 0.33203125, 0.93359375);
   (0.80078125, 0.31640625, 0.92578125);
   (0.80859375, 0.30078125, 0.9140625);
   (0.81640625, 0.2890625, 0.90234375);
   (0.82421875, 0.2734375, 0.890625);
   (0.83203125, 0.2578125, 0.875);
   (0.8359375, 0.24609375, 0.86328125);
   (0.84375, 0.234375, 0.84765625);
   (0.84765625, 0.21875, 0.83203125);
   (0.8515625, 0.20703125, 0.8203125);
   (0.85546875, 0.1953125, 0.8046875);
   (0.859375, 0.18359375, 0.7890625);
   (0.86328125, 0.17578125, 0.76953125);
   (0.8671875, 0.1640625, 0.75390625);
   (0.8671875, 0.15234375, 0.73828125);
   (0.87109375, 0.14453125, 0.71875);
   (0.87109375, 0.1328125, 0.703125);
   (0.87109375, 0.125, 0.68359375);
   (0.87109375, 0.1171875, 0.6640625);
   (0.87109375, 0.109375, 0.6484375);
   (0.87109375, 0.1015625, 0.62890625);
   (0.87109375, 0.09375, 0.609375);
   (0.8671875, 0.0859375, 0.58984375);
   (0.8671875, 0.078125, 0.57421875);
   (0.8671875, 0.07421875, 0.5546875);
   (0.86328125, 0.06640625, 0.53515625);
   (0.86328125, 0.0625, 0.51953125);
   (0.86328125, 0.05859375, 0.5);
   (0.859375, 0.05078125, 0.48046875);
   (0.859375, 0.046875, 0.46484375);
   (0.859375, 0.04296875, 0.4453125);
   (0.85546875, 0.0390625, 0.4296875);
   (0.85546875, 0.03515625, 0.41015625);
   (0.85546875, 0.03515625, 0.39453125);
   (0.8515625, 0.03125, 0.375);
   (0.8515625, 0.02734375, 0.359375);
   (0.8515625, 0.0234375, 0.34375);
   (0.8515625, 0.0234375, 0.328125);
   (0.8515625, 0.01953125, 0.3125);
   (0.8515625, 0.01953125, 0.296875);
   (0.8515625, 0.01953125, 0.28515625);
   (0.8515625, 0.015625, 0.26953125);
   (0.85546875, 0.015625, 0.25390625);
   (0.85546875, 0.015625, 0.2421875);
   (0.85546875, 0.015625, 0.23046875);
   (0.859375, 0.015625, 0.21484375);
   (0.86328125, 0.015625, 0.203125);
   (0.86328125, 0.015625, 0.19140625);
   (0.8671875, 0.015625, 0.1796875);
   (0.87109375, 0.015625, 0.16796875);
   (0.875, 0.015625, 0.16015625);
   (0.87890625, 0.015625, 0.1484375);
   (0.8828125, 0.01953125, 0.140625);
   (0.88671875, 0.01953125, 0.12890625);
   (0.890625, 0.01953125, 0.12109375);
   (0.89453125, 0.0234375, 0.11328125);
   (0.8984375, 0.0234375, 0.10546875);
   (0.90234375, 0.02734375, 0.09765625);
   (0.91015625, 0.02734375, 0.08984375);
   (0.9140625, 0.03125, 0.0859375);
   (0.91796875, 0.03515625, 0.078125);
   (0.921875, 0.0390625, 0.0703125);
   (0.9296875, 0.04296875, 0.06640625);
   (0.93359375, 0.04296875, 0.0625);
   (0.9375, 0.046875, 0.0546875);
   (0.94140625, 0.05078125, 0.05078125);
   (0.94921875, 0.05859375, 0.046875);
   (0.953125, 0.0625, 0.04296875);
   (0.95703125, 0.06640625, 0.0390625);
   (0.9609375, 0.0703125, 0.03515625);
   (0.96484375, 0.078125, 0.03125);
   (0.96875, 0.08203125, 0.02734375);
   (0.97265625, 0.08984375, 0.02734375);
   (0.9765625, 0.09375, 0.0234375);
   (0.98046875, 0.1015625, 0.01953125);
   (0.98046875, 0.109375, 0.01953125);
   (0.984375, 0.11328125, 0.015625);
   (0.98828125, 0.12109375, 0.015625);
   (0.98828125, 0.12890625, 0.01171875);
   (0.9921875, 0.13671875, 0.01171875);
   (0.9921875, 0.14453125, 0.01171875);
   (0.9921875, 0.15234375, 0.0078125);
   (0.99609375, 0.16015625, 0.0078125);
   (0.99609375, 0.171875, 0.0078125);
   (0.99609375, 0.1796875, 0.0078125);
   (0.99609375, 0.1875, 0.00390625);
   (0.99609375, 0.19921875, 0.00390625);
   (0.99609375, 0.20703125, 0.00390625);
   (0.99609375, 0.21875, 0.00390625);
   (0.99609375, 0.2265625, 0.00390625);
   (0.9921875, 0.23828125, 0.00390625);
   (0.9921875, 0.24609375, 0.00390625);
   (0.9921875, 0.2578125, 0.0);
   (0.98828125, 0.26953125, 0.0);
   (0.98828125, 0.28125, 0.0);
   (0.984375, 0.2890625, 0.0);
   (0.984375, 0.30078125, 0.0);
   (0.98046875, 0.3125, 0.0);
   (0.98046875, 0.32421875, 0.0);
   (0.9765625, 0.33203125, 0.0);
   (0.9765625, 0.34375, 0.0);
   (0.97265625, 0.35546875, 0.0);
   (0.97265625, 0.3671875, 0.0);
   (0.96875, 0.37890625, 0.0);
   (0.96484375, 0.390625, 0.0);
   (0.96484375, 0.3984375, 0.0);
   (0.9609375, 0.41015625, 0.0);
   (0.95703125, 0.421875, 0.0);
   (0.95703125, 0.43359375, 0.0);
   (0.953125, 0.44140625, 0.0);
   (0.94921875, 0.453125, 0.0);
   (0.94921875, 0.46484375, 0.0);
   (0.9453125, 0.47265625, 0.0);
   (0.94140625, 0.484375, 0.0);
   (0.94140625, 0.4921875, 0.0);
   (0.9375, 0.50390625, 0.0);
   (0.93359375, 0.51171875, 0.0);
   (0.9296875, 0.51953125, 0.0);
   (0.9296875, 0.53125, 0.0);
   (0.92578125, 0.5390625, 0.0);
   (0.921875, 0.546875, 0.0);
   (0.91796875, 0.5546875, 0.0);
   (0.9140625, 0.5625, 0.0);
   (0.91015625, 0.5703125, 0.0);
   (0.91015625, 0.578125, 0.0);
   (0.90625, 0.5859375, 0.0);
   (0.90234375, 0.59375, 0.0);
   (0.89453125, 0.6015625, 0.0);
   (0.890625, 0.609375, 0.0);
   (0.88671875, 0.61328125, 0.0);
   (0.8828125, 0.62109375, 0.0);
   (0.875, 0.625, 0.0);
   (0.87109375, 0.6328125, 0.0);
   (0.86328125, 0.63671875, 0.0);
   (0.859375, 0.64453125, 0.0);
   (0.8515625, 0.6484375, 0.0);
   (0.84375, 0.65625, 0.0);
   (0.83984375, 0.66015625, 0.0);
   (0.83203125, 0.6640625, 0.0);
   (0.82421875, 0.671875, 0.0);
   (0.8125, 0.67578125, 0.0);
   (0.8046875, 0.6796875, 0.00390625);
   (0.796875, 0.68359375, 0.00390625);
   (0.78515625, 0.6875, 0.00390625);
   (0.77734375, 0.6953125, 0.00390625);
   (0.765625, 0.69921875, 0.00390625);
   (0.7578125, 0.703125, 0.00390625);
   (0.74609375, 0.70703125, 0.00390625);
   (0.734375, 0.7109375, 0.0078125);
   (0.72265625, 0.71484375, 0.0078125);
   (0.7109375, 0.72265625, 0.0078125);
   (0.69921875, 0.7265625, 0.0078125);
   (0.68359375, 0.73046875, 0.01171875);
   (0.671875, 0.734375, 0.01171875);
   (0.66015625, 0.73828125, 0.01171875);
   (0.64453125, 0.74609375, 0.015625);
   (0.62890625, 0.75, 0.015625);
   (0.6171875, 0.75390625, 0.01953125);
   (0.6015625, 0.76171875, 0.01953125);
   (0.5859375, 0.765625, 0.0234375);
   (0.57421875, 0.76953125, 0.02734375);
   (0.55859375, 0.77734375, 0.02734375);
   (0.54296875, 0.78125, 0.03125);
   (0.52734375, 0.7890625, 0.03515625);
   (0.51171875, 0.79296875, 0.0390625);
   (0.49609375, 0.80078125, 0.04296875);
   (0.48046875, 0.80859375, 0.046875);
   (0.46875, 0.8125, 0.05078125);
   (0.453125, 0.8203125, 0.0546875);
   (0.4375, 0.828125, 0.0625);
   (0.421875, 0.83203125, 0.06640625);
   (0.40625, 0.83984375, 0.0703125);
   (0.390625, 0.84765625, 0.078125);
   (0.37890625, 0.85546875, 0.0859375);
   (0.36328125, 0.859375, 0.08984375);
   (0.34765625, 0.8671875, 0.09765625);
   (0.3359375, 0.875, 0.10546875);
   (0.3203125, 0.8828125, 0.11328125);
   (0.30859375, 0.88671875, 0.12109375);
   (0.29296875, 0.89453125, 0.12890625)]%Q.

Definition rgb_of_Q (c : rgbQ) : rgb :=
  let '(r, g, b) := c in (Q2R r, Q2R g, Q2R b).

Definition rgbQ_in_unit (c : rgbQ) : bool :=
  let '(r, g, b) := c in
  Qle_bool 0 r && Qle_bool r 1 && Qle_bool 0 g && Qle_bool g 1
  && Qle_bool 0 b && Qle_bool b 1.

(** * Piecewise-linear interpolation *)

Module Interp.
Local Open Scope R_scope.

Definition rgb_sub (a b : rgb) : rgb :=
  let '(a1, a2, a3) := a in let '(b1, b2, b3) := b in (a1 - b1, a2 - b2, a3 - b3).

Definition rgb_add (a b : rgb) : rgb :=
  let '(a1, a2, a3) := a in let '(b1, b2, b3) := b in (a1 + b1, a2 + b2, a3 + b3).

Definition rgb_div (a : rgb) (k : R) : rgb :=
  let '(a1, a2, a3) := a in (a1 / k, a2 / k, a3 / k).

(** Broadcast product of a scalar with a colour: [k * (r, g, b)]. *)
Definition rgb_scale (k : R) (a : rgb) : rgb :=
  let '(a1, a2, a3) := a in (k * a1, k * a2, k * a3).

Definition rgb0 : rgb := (0, 0, 0).

(** [np.searchsorted xs x] (side left): the first index [i] with
    [x <= xs[i]], or [len xs].  numpy finds it by bisection; on a sorted
    axis a scan from the left finds the same index. *)
Fixpoint searchsorted (xs : list R) (x : R) : nat :=
  match xs with
  | [] => 0%nat
  | a :: xs' => if Rle_dec x a then 0%nat else S (searchsorted xs' x)
  end.

(** Modelled from the spec: [scipy.interpolate.interp1d xs ys] with
    [axis=0], the default [kind='linear'] and the default [bounds_error],
    which is not part of this repository.  A query outside [xs[0], xs[-1]]
    raises; inside, the value is interpolated linearly between the two
    anchors around it ("linear interpolation between adjacent anchor
    angles"). *)
Definition interp1d (xs : list R) (ys : list rgb) (x_new : R) : result rgb :=
  if Rlt_dec x_new (nth 0 xs 0) then
    Raise (ValueError "A value in x_new is below the interpolation range.")
  else if Rlt_dec (List.last xs 0) x_new then
    Raise (ValueError "A value in x_new is above the interpolation range.")
  else
    let idx := Nat.min (Nat.max (searchsorted xs x_new) 1) (length xs - 1) in
    let lo := (idx - 1)%nat in
    let hi := idx in
    let x_lo := nth lo xs 0 in
    let x_hi := nth hi xs 0 in
    let y_lo := nth lo ys rgb0 in
    let y_hi := nth hi ys rgb0 in
    let slope := rgb_div (rgb_sub y_hi y_lo) (x_hi - x_lo) in
    Ok (rgb_add (rgb_scale (x_new - x_lo) slope) y_lo).

(** [gtab = np.vstack((GOPTABLE, GOPTABLE[0]))] *)
Definition gtab : list rgb :=
  map rgb_of_Q GOPTABLE ++ [rgb_of_Q (nth 0 GOPTABLE (0, 0, 0)%Q)].

(** [gtab_angles = 2 * np.pi * np.arange(256 + 1) / 256] *)
Definition gtab_angles : list R :=
  map (fun i : nat => 2 * PI * INR i / 256) (seq 0 (256 + 1)).

(** [cmap_table = scipy.interpolate.interp1d(gtab_angles, gtab, axis=0)] *)
Definition cmap_table (x : R) : result rgb := interp1d gtab_angles gtab x.

End Interp.
Export Interp.

(** * numpy arrays in a store *)

Inductive np_dtype : Type :=
| bool_ | int64 | float32 | float64 | complex64 | complex128.

Definition np_dtype_eqb (a b : np_dtype) : bool :=
  match a, b with
  | bool_, bool_ | int64, int64 | float32, float32 | float64, float64
  | complex64, complex64 | complex128, complex128 => true
  | _, _ => false
  end.

(** [np.complex] is Python's [complex], which as a dtype is [complex128]. *)
Definition np_complex : np_dtype := complex128.

Definition is_real_dtype (d : np_dtype) : bool :=
  match d with complex64 | complex128 => false | _ => true end.

(** The dtype of [x + 1j * y] for arrays [x], [y] of dtype [d]. *)
Definition complex_result_type (d : np_dtype) : np_dtype :=
  match d with float32 | complex64 => complex64 | _ => complex128 end.

(** An array: dtype, shape, and the elements in row-major order.  Every
    element is kept as a complex number; in an array of a real dtype the
    imaginary parts are 0 (see [wf_array]). *)
Record ndarray : Type := NdArray {
  dtype : np_dtype;
  shape : list nat;
  flat : list complex
}.

Definition ndim (V : ndarray) : nat := length (shape V).
Definition size (V : ndarray) : nat := fold_right Nat.mul 1%nat (shape V).

Definition wf_array (V : ndarray) : Prop :=
  length (flat V) = size V /\
  (is_real_dtype (dtype V) = true -> Forall (fun z => im z = 0%R) (flat V)).

(** [V[..., j]] for an array with at least one axis: the elements whose last
    index is [j]. *)
Definition index_last (V : ndarray) (j : nat) : ndarray :=
  let m := List.last (shape V) 0%nat in
  let n := fold_right Nat.mul 1%nat (removelast (shape V)) in
  NdArray (dtype V) (removelast (shape V))
          (map (fun k => nth (k * m + j) (flat V) C0) (seq 0 n)).

(** [Vx + 1j * Vy] for two arrays of one shape. *)
Definition add_1j_mul (Vx Vy : ndarray) : ndarray :=
  NdArray (complex_result_type (dtype Vx)) (shape Vx)
          (zip_with (fun x y => Cadd x (Cmul Ci y)) (flat Vx) (flat Vy)).

(** [np.max] of a real array; numpy refuses an array without elements. *)
Definition np_max (l : list R) : result R :=
  match l with
  | [] => Raise (ValueError
            "zero-size array to reduction operation maximum which has no identity")
  | a :: l' => Ok (fold_left Rmax l' a)
  end.

(** The output of [gopimage]: an array of shape [(irows, icols, 3)], one
    colour per spatial index, row-major. *)
Record image3 : Type := Image3 {
  irows : nat;
  icols : nat;
  pixels : list rgb
}.

Definition pixel_at (g : image3) (i j : nat) : option rgb :=
  pixels g !! (i * icols g + j)%nat.

(** Locations are indices into the store. *)
Abbreviation loc := nat (only parsing).
Abbreviation store := (list ndarray) (only parsing).

(** Computations that read and write a state [S] and may raise. *)
Definition ST (S A : Type) : Type := S -> S * result A.

#[global] Instance ST_ret {S} : MRet (ST S) := fun A a s => (s, Ok a).
#[global] Instance ST_bind {S} : MBind (ST S) := fun A B f m s =>
  match m s with
  | (s', Ok a) => f a s'
  | (s', Raise e) => (s', Raise e)
  end.

Definition raise {S A} (e : exn) : ST S A := fun s => (s, Raise e).
Definition lift {S A} (r : result A) : ST S A := fun s => (s, r).
Definition load (l : loc) : ST store ndarray := fun σ =>
  match σ !! l with
  | Some V => (σ, Ok V)
  | None => (σ, Raise Dangling)
  end.
Definition alloc (V : ndarray) : ST store loc := fun σ => ((σ ++ [V])%list, Ok (length σ)).

(** [W /= d]: every element of the array at [l] is divided in place. *)
Definition idiv (l : loc) (d : R) : ST store unit := fun σ =>
  match σ !! l with
  | Some W =>
      (<[l := NdArray (dtype W) (shape W)
                      (map (fun z => Cdiv z (of_real d)) (flat W))]> σ, Ok tt)
  | None => (σ, Raise Dangling)
  end.

(** * gopimage (lab2.py lines 84-136) *)

Definition shape_msg : string :=
  "Input must be real MxNx2 array, or complex MxN array".

(** [.reshape(rows, cols, 3)] of the [n x 3] array of colours. *)
Definition reshape3 (rows cols : nat) (cs : list rgb) : result image3 :=
  if (length cs =? rows * cols)%nat then Ok (Image3 rows cols cs)
  else Raise (ValueError "cannot reshape array").

(** Lines 121-131 on the elements of the normalized [W]: intensity and hue
    angle of every element, the colour of every hue angle, and their
    broadcast product [np.atleast_3d(abs_w) * angle_im]. *)
Definition colour_code (scale : R) (rows cols : nat) (ws : list complex)
  : result image3 :=
  let abs_w := map (fun w => Rmin 1 (scale * Cabs w)%R) ws in
  let angle_w := map (fun w => clip (PI + angle (Cneg w)) 0 (2 * PI)%R) ws in
  result_bind (result_mapM cmap_table angle_w) (fun cs =>
  result_bind (reshape3 rows cols cs) (fun angle_im =>
  Ok (Image3 rows cols (zip_with rgb_scale abs_w (pixels angle_im))))).

(** The value of [gopimage] is the array [gopim] that it hands to
    [ax.imshow]; the store afterwards is the first component of the run. *)
Definition gopimage (v : loc) (scale : R) : ST store image3 :=
  V ← load v;
  W ← (if (ndim V =? 2)%nat && np_dtype_eqb (dtype V) np_complex then mret v
       else if (ndim V =? 3)%nat && (nth 2 (shape V) 0 =? 2)%nat then
         let Vx := index_last V 0 in
         let Vy := index_last V 1 in
         alloc (add_1j_mul Vx Vy)
       else raise (ValueError shape_msg));
  W0 ← load W;
  max_mag ← lift (np_max (map Cabs (flat W0)));
  (if Req_dec_T max_mag 0 then mret tt else idiv W max_mag);;
  W1 ← load W;
  V' ← load v;
  let rows := nth 0 (shape V') 0%nat in
  let cols := nth 1 (shape V') 0%nat in
  lift (colour_code scale rows cols (flat W1)).

(** * image_grid (lab2.py lines 18-82) *)

Module Grid.
Local Open Scope Z_scope.

(** A panel: a 2-D array of pixel values, row by row.  Grey-scale images, as
    [load_image_grayscale] returns them, hold integers. *)
Definition image : Type := list (list Z).

(** [images] is a list of arrays, or a dict from names to arrays in
    insertion order. *)
Inductive panels : Type :=
| PanelList (ims : list image)
| PanelDict (items : list (string * image)).

Definition panel_images (p : panels) : list image :=
  match p with
  | PanelList ims => ims
  | PanelDict items => map snd items
  end.

(** [images.keys()], or [[None] * len(images)] for a list. *)
Definition panel_names (p : panels) : list (option string) :=
  match p with
  | PanelList ims => map (fun _ => None) ims
  | PanelDict items => map (fun it => Some (fst it)) items
  end.

Definition Axes : Type := nat.
Definition imshow_opts : Type := list (string * string).

Inductive cbar_mode : Type := each | single.

(** What the call asks of matplotlib, in order. *)
Inductive event : Type :=
| EFigure
| EImageGrid (nrows ncols : Z) (mode : cbar_mode) (share_all : bool)
| EImshow (ax : Axes) (im : image) (norm : option (Z * Z)) (opts : imshow_opts)
| ESetTitle (ax : Axes) (name : string)
| EColorbar (ax : Axes)
| EToggleLabel (ax : Axes).

Definition emit (e : event) : ST (list event) unit :=
  fun tr => ((tr ++ [e])%list, Ok tt).

Definition zero_size_msg (op : string) : string :=
  ("zero-size array to reduction operation " ++ op ++ " which has no identity")%string.

(** [np.min im] and [np.max im] over all elements of the array. *)
Definition np_min (im : image) : result Z :=
  match concat im with
  | [] => Raise (ValueError (zero_size_msg "minimum"))
  | a :: l => Ok (fold_left Z.min l a)
  end.

Definition np_amax (im : image) : result Z :=
  match concat im with
  | [] => Raise (ValueError (zero_size_msg "maximum"))
  | a :: l => Ok (fold_left Z.max l a)
  end.

(** Python's [min] and [max] over an iterable. *)
Definition py_min (l : list Z) : result Z :=
  match l with
  | [] => Raise (ValueError "min() arg is an empty sequence")
  | a :: l' => Ok (fold_left Z.min l' a)
  end.

Definition py_max (l : list Z) : result Z :=
  match l with
  | [] => Raise (ValueError "max() arg is an empty sequence")
  | a :: l' => Ok (fold_left Z.max l' a)
  end.

(** Lines 62-67: [None], or [Normalize(vmin, vmax)] over all the panels. *)
Definition compute_norm (separate_colorbars : bool) (ims : list image)
  : result (option (Z * Z)) :=
  if separate_colorbars then Ok None
  else
    result_bind (result_bind (result_mapM np_min ims) py_min) (fun vmin =>
    result_bind (result_bind (result_mapM np_amax ims) py_max) (fun vmax =>
    Ok (Some (vmin, vmax)))).

(** [int(np.ceil(a / b))] for integers [a] and [b <> 0]. *)
Definition ceil_div (a b : Z) : Z := - ((- a) / b).

(** Lines 59-60: [if not ncols: ncols = int(np.ceil(len(images) / nrows))]. *)
Definition resolve_ncols (count nrows : Z) (ncols : option Z) : result Z :=
  let computed :=
    if nrows =? 0 then Raise (ZeroDivisionError "division by zero")
    else Ok (ceil_div count nrows) in
  match ncols with
  | None => computed
  | Some n => if n =? 0 then computed else Ok n
  end.

Definition truthy (name : option string) : bool :=
  match name with
  | None => false
  | Some s => negb (String.eqb s ""%string)
  end.

(** The loop of lines 73-80 over [zip(grid, names, images)]. *)
Fixpoint draw_loop (zs : list (Axes * option string * image))
    (norm : option (Z * Z)) (opts : imshow_opts) (axes : list Axes)
  : ST (list event) (list Axes) :=
  match zs with
  | [] => mret axes
  | (ax, name, im) :: zs' =>
      emit (EImshow ax im norm opts);;
      (if truthy name then emit (ESetTitle ax (default ""%string name)) else mret tt);;
      emit (EColorbar ax);;
      emit (EToggleLabel ax);;
      draw_loop zs' norm opts (axes ++ [ax])%list
  end.

Section Surface.

(** [ImageGrid(fig, 111, (nrows, ncols), cbar_mode, share_all)] belongs to
    matplotlib: the axes of the grid it builds, in the order in which the
    grid is iterated, or the exception it raises. *)
Variable ImageGrid : Z -> Z -> cbar_mode -> bool -> result (list Axes).

Definition image_grid (images : panels) (nrows : Z) (ncols : option Z)
    (separate_colorbars share_all : bool) (opts : imshow_opts)
  : ST (list event) (list Axes) :=
  let names := panel_names images in
  let ims := panel_images images in
  ncols' ← lift (resolve_ncols (Z.of_nat (length ims)) nrows ncols);
  norm ← lift (compute_norm separate_colorbars ims);
  emit EFigure;;
  let mode := if separate_colorbars then each else single in
  emit (EImageGrid nrows ncols' mode share_all);;
  grid ← lift (ImageGrid nrows ncols' mode share_all);
  draw_loop (zip (zip grid names) ims) norm opts [].

End Surface.

(** Modelled from the spec: matplotlib's [ImageGrid], which is not part of
    this repository ("create a grid of N axes"): a grid of [nrows] by
    [ncols] axes, numbered row by row.  A grid without rows or columns has
    no lower-left axes, and building it fails. *)
Definition mpl_ImageGrid (nrows ncols : Z) (mode : cbar_mode) (share_all : bool)
  : result (list Axes) :=
  if (1 <=? nrows) && (1 <=? ncols) then Ok (seq 0 (Z.to_nat (nrows * ncols)))
  else Raise (IndexError "list index out of range").


(** The [imshow] calls of a trace, in order. *)
Fixpoint imshows (tr : list event) : list (Axes * image * option (Z * Z)) :=
  match tr with
  | [] => []
  | EImshow ax im norm _ :: tr' => (ax, im, norm) :: imshows tr'
  | _ :: tr' => imshows tr'
  end.






Definition count (images : panels) : Z := Z.of_nat (length (panel_images images)).



End Grid.

(** * Vocabulary of the claims about gopimage *)

Module Field.
Local Open Scope R_scope.

Definition in_unit (c : rgb) : Prop :=
  let '(r, g, b) := c in 0 <= r <= 1 /\ 0 <= g <= 1 /\ 0 <= b <= 1.

(** The interpolant as a total function; [cmap_table] raises nowhere on
    [0, 2 pi] (lemma [cmap_table_total]). *)
Definition cmap_value (x : R) : rgb :=
  match cmap_table x with Ok c => c | Raise _ => rgb0 end.

(** Lines 102-111: which arrays pass the test on shape and dtype. *)
Definition accepts (V : ndarray) : bool :=
  ((ndim V =? 2)%nat && np_dtype_eqb (dtype V) np_complex)
  || ((ndim V =? 3)%nat && (nth 2 (shape V) 0 =? 2)%nat).

(** The elements of [W] as lines 102-109 leave it. *)
Definition field_samples (V : ndarray) : list complex :=
  if (ndim V =? 2)%nat && np_dtype_eqb (dtype V) np_complex then flat V
  else flat (add_1j_mul (index_last V 0) (index_last V 1)).

(** Line 118 on one element. *)
Definition normalize (max_mag : R) (z : complex) : complex :=
  if Req_dec_T max_mag 0 then z else Cdiv z (of_real max_mag).

(** Lines 126-131 on one element of the normalized [W]. *)
Definition pixel_of (scale : R) (w : complex) : rgb :=
  rgb_scale (Rmin 1 (scale * Cabs w))
            (cmap_value (clip (PI + angle (Cneg w)) 0 (2 * PI))).

(** A motion field of [rows] by [cols] vectors in one of the two forms that
    the docstring names: a complex ([np.complex]) array of shape
    [(rows, cols)], or a real array of shape [(rows, cols, 2)]. *)
Definition valid_field (V : ndarray) (rows cols : nat) : Prop :=
  wf_array V /\
  ((shape V = [rows; cols] /\ dtype V = np_complex) \/
   (shape V = [rows; cols; 2%nat] /\ is_real_dtype (dtype V) = true)).

(** The vector at spatial index [(i, j)] as a complex number [x + i y]:
    [V[i, j]] of a complex field, [V[i, j, 0] + i V[i, j, 1]] of a real one. *)
Definition sample_at (V : ndarray) (i j : nat) : complex :=
  let cols := nth 1 (shape V) 0%nat in
  if (ndim V =? 2)%nat then nth (i * cols + j) (flat V) C0
  else Cx (re (nth ((i * cols + j) * 2 + 0) (flat V) C0))
          (re (nth ((i * cols + j) * 2 + 1) (flat V) C0)).

(** [m] is the largest magnitude over the whole field. *)
Definition is_peak (m : R) (V : ndarray) (rows cols : nat) : Prop :=
  (exists i j, (i < rows)%nat /\ (j < cols)%nat /\ Cabs (sample_at V i j) = m) /\
  (forall i j, (i < rows)%nat -> (j < cols)%nat -> Cabs (sample_at V i j) <= m).

(** The sample as the claim normalizes it: divided by the peak magnitude
    unless that is 0. *)
Definition scaled_sample (max_mag : R) (z : complex) : complex :=
  if Req_dec_T max_mag 0 then z else Cx (re z / max_mag) (im z / max_mag).

(** [c * V] for a Python float [c]. *)
Definition times_dtype (d : np_dtype) : np_dtype :=
  match d with bool_ | int64 => float64 | d' => d' end.

Definition times (c : R) (V : ndarray) : ndarray :=
  NdArray (times_dtype (dtype V)) (shape V)
          (map (fun z => Cx (c * re z) (c * im z)) (flat V)).

(** The scenario of the spec: a real 2 x 2 field with the vectors
    (1,0), (0,1), (-1,0), (0,-1). *)
Definition quad_field : ndarray :=
  NdArray float64 [2; 2; 2]%nat
    [Cx 1 0; Cx 0 0; Cx 0 0; Cx 1 0; Cx (-1) 0; Cx 0 0; Cx 0 0; Cx (-1) 0].

(** A complex 1 x 1 field holding 2 + 0j. *)
Definition unit_complex_field : ndarray :=
  NdArray complex128 [1; 1]%nat [Cx 2 0].

(** A complex array of shape (1, 1, 2), and a [complex64] array of shape
    (1, 1). *)
Definition complex_pairs : ndarray :=
  NdArray complex128 [1; 1; 2]%nat [Cx 1 0; Cx 0 0].

Definition single_precision_field : ndarray :=
  NdArray complex64 [1; 1]%nat [Cx 1 0].

End Field.

(** * Vocabulary for further properties of the two functions *)

Module Field2.
Import Field.
Local Open Scope R_scope.


(** A real 1 x 2 field with the vectors (3, 4) and (0, 0), the complex field
    with the same two vectors, a field of zeros, and a field without rows. *)
Definition pair_field : ndarray :=
  NdArray float64 [1; 2; 2]%nat [Cx 3 0; Cx 4 0; Cx 0 0; Cx 0 0].

Definition pair_field_complex : ndarray :=
  NdArray complex128 [1; 2]%nat [Cx 3 4; Cx 0 0].


Definition no_rows_field : ndarray :=
  NdArray float64 [0; 2; 2]%nat [].

End Field2.

(** * A scale that is not finite

    [scale] is a Python float, which may be [inf], [-inf] or [nan].  The
    field, the table and the angles stay finite; only the products with the
    scale can leave the reals.  Lines 126 and 131 are read again over values
    that are a real, an infinity or NaN, with the IEEE rules that numpy
    follows: [inf * 0] is NaN, and NaN goes through products and through
    [np.minimum]. *)

Module Scale.
Local Open Scope R_scope.














End Scale.

Module Grid2.
Import Grid.
Local Open Scope Z_scope.





(** A panel without pixels (shape (0, 0)), and panels with and without
    names. *)
Definition empty_panel : image := [].


Definition with_empty_panel : panels := PanelList [[[1; 2]]; empty_panel; [[3]]].

End Grid2.

(** * Sanity checks of the table *)

Example GOPTABLE_length : length GOPTABLE = 256%nat.
Proof. reflexivity. Qed.

Example GOPTABLE_in_unit : forallb rgbQ_in_unit GOPTABLE = true.
Proof. vm_compute. reflexivity. Qed.

(** * The image grid: normalization and layout *)

Module GridFacts.
Import Grid.
Local Open Scope Z_scope.












Lemma imshows_app (a b : list event) : imshows (a ++ b) = imshows a ++ imshows b.
Proof.
  induction a as [|e a IH]; [reflexivity|].
  destruct e; simpl; rewrite IH; reflexivity.
Qed.









(** One panel without pixels makes the scan for the minimum raise. *)
Lemma mapM_np_min_fails (ims : list image) :
  Exists (fun im => concat im = []) ims ->
  result_mapM np_min ims = Raise (ValueError (zero_size_msg "minimum")).
Proof.
  induction 1 as [im ims Him | im ims _ IH]; simpl.
  - unfold np_min. now rewrite Him.
  - unfold np_min at 1. destruct (concat im); [reflexivity|]. now rewrite IH.
Qed.


End GridFacts.

(** * The image grid: the claims *)

Module GridClaims.
Import Grid Grid2 GridFacts.
Local Open Scope Z_scope.


Lemma image_grid_no_grid ImageGrid images nrows ncols sep share opts c norm e :
  resolve_ncols (count images) nrows ncols = Ok c ->
  compute_norm sep (panel_images images) = Ok norm ->
  ImageGrid nrows c (if sep then each else single) share = Raise e ->
  image_grid ImageGrid images nrows ncols sep share opts []
  = ([EFigure; EImageGrid nrows c (if sep then each else single) share], Raise e).
Proof.
  intros Hc Hn Hg. unfold image_grid, mbind, ST_bind, lift, emit.
  unfold count in Hc. rewrite Hc, Hn. cbn [app]. now rewrite Hg.
Qed.

Lemma resolve_ncols_ok (n nrows : Z) (ncols : option Z) :
  nrows <> 0 -> exists c, resolve_ncols n nrows ncols = Ok c.
Proof.
  intros Hr. unfold resolve_ncols.
  destruct (Z.eqb_spec nrows 0); [contradiction|].
  destruct ncols as [m|]; [destruct (m =? 0)|]; eauto.
Qed.





(** C7, as stated, fails: by default the normalization is shared, and the
    minimum over no panels raises. *)
Lemma image_grid_empty_raises :
  image_grid mpl_ImageGrid (PanelList []) 1 None false false [] []
  = ([], Raise (ValueError "min() arg is an empty sequence")) /\
  snd (image_grid mpl_ImageGrid (PanelList []) 1 None false false [] []) <> Ok [].
Proof. split; [reflexivity | simpl; discriminate]. Qed.

(** C7, amended: for an empty collection and [nrows >= 1], the call with
    [separate_colorbars=False] raises [ValueError] from [min()] before
    anything is drawn; the call with [separate_colorbars=True] asks for the
    grid, shows no panel and returns the empty list when the surface builds
    the grid, and passes the surface's exception on when it does not. *)
Theorem image_grid_empty ImageGrid (images : panels) nrows ncols share opts :
  panel_images images = [] ->
  1 <= nrows ->
  image_grid ImageGrid images nrows ncols false share opts []
    = ([], Raise (ValueError "min() arg is an empty sequence")) /\
  exists c,
    resolve_ncols 0 nrows ncols = Ok c /\
    (forall grid, ImageGrid nrows c each share = Ok grid ->
       image_grid ImageGrid images nrows ncols true share opts []
       = ([EFigure; EImageGrid nrows c each share], Ok [])) /\
    (forall e, ImageGrid nrows c each share = Raise e ->
       image_grid ImageGrid images nrows ncols true share opts []
       = ([EFigure; EImageGrid nrows c each share], Raise e)).
Proof.
  intros Hemp Hr.
  destruct (resolve_ncols_ok 0 nrows ncols ltac:(lia)) as (c & Hc).
  assert (Hcount : count images = 0) by (unfold count; now rewrite Hemp).
  split.
  - unfold image_grid, mbind, ST_bind, lift. rewrite Hemp. simpl length.
    change (Z.of_nat 0) with 0. rewrite Hc. reflexivity.
  - exists c. split; [exact Hc|]. split.
    + intros grid Hg. unfold image_grid, mbind, ST_bind, lift, emit.
      rewrite Hemp. simpl length. change (Z.of_nat 0) with 0. rewrite Hc.
      simpl. rewrite Hg, zip_with_nil_r. reflexivity.
    + intros e Hg. apply image_grid_no_grid with (norm := None).
      * rewrite Hcount. exact Hc.
      * reflexivity.
      * exact Hg.
Qed.

Lemma image_grid_empty_witness :
  panel_images (PanelList []) = [] /\
  1 <= 1 /\
  image_grid mpl_ImageGrid (PanelList []) 1 (Some 2) false false [] []
    = ([], Raise (ValueError "min() arg is an empty sequence")) /\
  exists c,
    resolve_ncols 0 1 (Some 2) = Ok c /\
    (forall grid, mpl_ImageGrid 1 c each false = Ok grid ->
       image_grid mpl_ImageGrid (PanelList []) 1 (Some 2) true false [] []
       = ([EFigure; EImageGrid 1 c each false], Ok [])) /\
    (forall e, mpl_ImageGrid 1 c each false = Raise e ->
       image_grid mpl_ImageGrid (PanelList []) 1 (Some 2) true false [] []
       = ([EFigure; EImageGrid 1 c each false], Raise e)).
Proof.
  split; [reflexivity | split; [lia |]].
  apply (image_grid_empty mpl_ImageGrid (PanelList []) 1 (Some 2) false []);
    [reflexivity | lia].
Defined.





End GridClaims.

(** * The cyclic colour table and its interpolant *)

Module InterpFacts.
Import Field.
Local Open Scope R_scope.

Lemma gtab_length : length gtab = 257%nat.
Proof. reflexivity. Qed.

Lemma gtab_angles_length : length gtab_angles = 257%nat.
Proof. unfold gtab_angles. now rewrite length_map, length_seq. Qed.

Lemma nth_map_seq {A} (f : nat -> A) (n i : nat) (d : A) :
  (i < n)%nat -> nth i (map f (seq 0 n)) d = f i.
Proof.
  intros Hi.
  rewrite (nth_indep _ d (f 0%nat)) by (rewrite length_map, length_seq; lia).
  rewrite (map_nth f), seq_nth by lia. reflexivity.
Qed.

Lemma gtab_angles_nth (i : nat) :
  (i <= 256)%nat -> nth i gtab_angles 0 = 2 * PI * INR i / 256.
Proof. intros Hi. unfold gtab_angles. rewrite nth_map_seq by lia. reflexivity. Qed.

Lemma INR_256 : INR 256 = 256.
Proof. rewrite INR_IZR_INZ. reflexivity. Qed.

Lemma gtab_angles_last : List.last gtab_angles 0 = 2 * PI.
Proof.
  unfold gtab_angles. change (256 + 1)%nat with (S 256).
  rewrite seq_S, map_app. cbn [map]. rewrite last_last.
  change (0 + 256)%nat with 256%nat. rewrite INR_256. field.
Qed.

(** The axis is strictly increasing. *)
Lemma gtab_angles_lt (i j : nat) :
  (i < j)%nat -> (j <= 256)%nat -> nth i gtab_angles 0 < nth j gtab_angles 0.
Proof.
  intros Hij Hj. rewrite !gtab_angles_nth by lia.
  apply lt_INR in Hij. pose proof PI_RGT_0. nra.
Qed.

Section Searchsorted.
Variable xs : list R.
Variable x : R.

Lemma searchsorted_le : (searchsorted xs x <= length xs)%nat.
Proof.
  induction xs as [|a l IH]; simpl; [lia|].
  destruct (Rle_dec x a); lia.
Qed.

Lemma searchsorted_before (i : nat) :
  (i < searchsorted xs x)%nat -> nth i xs 0 < x.
Proof.
  revert i. induction xs as [|a l IH]; simpl; intros i Hi; [lia|].
  destruct (Rle_dec x a) as [|Hn]; [lia|].
  destruct i; [lra | apply IH; lia].
Qed.

Lemma searchsorted_at :
  (searchsorted xs x < length xs)%nat -> x <= nth (searchsorted xs x) xs 0.
Proof.
  induction xs as [|a l IH]; simpl; [lia|].
  destruct (Rle_dec x a) as [Hle|Hn]; [intros _; exact Hle|].
  intros Hlt. apply IH. lia.
Qed.

End Searchsorted.

(** Inside the axis, the clipped index brackets the query. *)
Lemma bracket (x : R) :
  0 <= x <= 2 * PI ->
  let idx := Nat.min (Nat.max (searchsorted gtab_angles x) 1) (length gtab_angles - 1) in
  (1 <= idx <= 256)%nat /\
  nth (idx - 1) gtab_angles 0 <= x <= nth idx gtab_angles 0.
Proof.
  intros [H0 H1] idx. subst idx. rewrite gtab_angles_length.
  pose proof (searchsorted_le gtab_angles x) as Hle.
  rewrite gtab_angles_length in Hle.
  assert (Hn : (searchsorted gtab_angles x <= 256)%nat).
  { destruct (Nat.eq_dec (searchsorted gtab_angles x) 257%nat) as [E|]; [|lia].
    pose proof (searchsorted_before gtab_angles x 256%nat ltac:(lia)) as Hb.
    rewrite gtab_angles_nth, INR_256 in Hb by lia. exfalso.
    assert (2 * PI * 256 / 256 = 2 * PI) by field. lra. }
  destruct (Nat.eq_dec (searchsorted gtab_angles x) 0%nat) as [E|NE].
  - rewrite E. simpl Nat.min. simpl Nat.sub. split; [lia|].
    pose proof (searchsorted_at gtab_angles x) as Hat.
    rewrite gtab_angles_length, E in Hat. specialize (Hat ltac:(lia)).
    rewrite gtab_angles_nth in Hat |- * by lia.
    pose proof (gtab_angles_lt 0%nat 1%nat ltac:(lia) ltac:(lia)) as Hlt.
    rewrite gtab_angles_nth in Hlt by lia. simpl INR in *. split; lra.
  - replace (Nat.min (Nat.max (searchsorted gtab_angles x) 1) (257 - 1))%nat
      with (searchsorted gtab_angles x) by lia.
    split; [lia|]. split.
    + left. apply searchsorted_before. lia.
    + apply searchsorted_at. rewrite gtab_angles_length. lia.
Qed.

Lemma Q_in_unit (q : Q) :
  Qle_bool 0 q = true -> Qle_bool q 1 = true -> 0 <= Q2R q <= 1.
Proof.
  intros H0 H1. apply Qle_bool_iff in H0, H1.
  apply Qle_Rle in H0, H1. rewrite RMicromega.Q2R_0 in H0.
  rewrite RMicromega.Q2R_1 in H1. lra.
Qed.

Lemma rgb_of_Q_in_unit (c : rgbQ) : rgbQ_in_unit c = true -> in_unit (rgb_of_Q c).
Proof.
  destruct c as [[r g] b]. unfold rgbQ_in_unit. rewrite !andb_true_iff.
  intros [[[[[? ?] ?] ?] ?] ?]. simpl. repeat split; now apply Q_in_unit.
Qed.

(** Every entry of the 257-entry table is a colour in the unit cube. *)
Lemma gtab_in_unit (i : nat) : (i <= 256)%nat -> in_unit (nth i gtab rgb0).
Proof.
  intros Hi.
  assert (HF : Forall in_unit gtab).
  { unfold gtab. apply Forall_app. split.
    - apply Forall_map. pose proof GOPTABLE_in_unit as H.
      rewrite forallb_forall in H. apply List.Forall_forall. intros c Hc.
      apply rgb_of_Q_in_unit, H, Hc.
    - constructor; [|constructor]. apply rgb_of_Q_in_unit. reflexivity. }
  rewrite List.Forall_forall in HF. apply HF, nth_In. rewrite gtab_length. lia.
Qed.

Lemma lerp_in_unit (a b t : R) :
  0 <= a <= 1 -> 0 <= b <= 1 -> 0 <= t <= 1 -> 0 <= t * (b - a) + a <= 1.
Proof. intros. split; nra. Qed.

(** On [0, 2 pi] the interpolant raises nothing and stays in the unit cube. *)
Lemma cmap_table_total (x : R) :
  0 <= x <= 2 * PI -> exists c, cmap_table x = Ok c /\ in_unit c.
Proof.
  intros Hx. unfold cmap_table, interp1d.
  pose proof (gtab_angles_nth 0%nat ltac:(lia)) as H0. simpl INR in H0.
  replace (2 * PI * 0 / 256) with 0 in H0 by field.
  rewrite H0, gtab_angles_last.
  destruct (Rlt_dec x 0) as [|_]; [lra|].
  destruct (Rlt_dec (2 * PI) x) as [|_]; [lra|].
  destruct (bracket x Hx) as [Hidx [Hlo Hhi]].
  set (idx := Nat.min (Nat.max (searchsorted gtab_angles x) 1) (length gtab_angles - 1)) in *.
  pose proof (gtab_angles_lt (idx - 1) idx ltac:(lia) ltac:(lia)) as Hlt.
  pose proof (gtab_in_unit (idx - 1) ltac:(lia)) as Ulo.
  pose proof (gtab_in_unit idx ltac:(lia)) as Uhi.
  set (x_lo := nth (idx - 1) gtab_angles 0) in *.
  set (x_hi := nth idx gtab_angles 0) in *.
  destruct (nth (idx - 1) gtab rgb0) as [[r0 g0] b0].
  destruct (nth idx gtab rgb0) as [[r1 g1] b1].
  eexists. split; [reflexivity|].
  simpl in Ulo, Uhi |- *.
  assert (Ht : 0 <= (x - x_lo) / (x_hi - x_lo) <= 1).
  { split.
    - apply Rmult_le_pos; [lra|]. left. apply Rinv_0_lt_compat. lra.
    - apply (Rmult_le_reg_r (x_hi - x_lo)); [lra|]. field_simplify; lra. }
  assert (E : forall a b, (x - x_lo) * ((b - a) / (x_hi - x_lo)) + a
                          = (x - x_lo) / (x_hi - x_lo) * (b - a) + a).
  { intros. field. lra. }
  rewrite !E. repeat split; apply lerp_in_unit; tauto.
Qed.

Lemma cmap_value_ok (x : R) :
  0 <= x <= 2 * PI -> cmap_table x = Ok (cmap_value x) /\ in_unit (cmap_value x).
Proof.
  intros Hx. destruct (cmap_table_total x Hx) as (c & Hc & Hu).
  unfold cmap_value. rewrite Hc. split; [reflexivity | exact Hu].
Qed.

Lemma clip_range (x : R) : 0 <= clip x 0 (2 * PI) <= 2 * PI.
Proof.
  unfold clip. pose proof PI_RGT_0.
  unfold Rmin, Rmax. repeat destruct Rle_dec; lra.
Qed.

Lemma searchsorted_unique (xs : list R) (x : R) (n : nat) :
  (forall i, (i < n)%nat -> nth i xs 0 < x) ->
  (n < length xs)%nat -> x <= nth n xs 0 -> searchsorted xs x = n.
Proof.
  revert n. induction xs as [|a l IH]; simpl; intros n Hb Hn Hx; [lia|].
  destruct (Rle_dec x a) as [Hle|Hnle].
  - destruct n; [reflexivity|]. specialize (Hb 0%nat ltac:(lia)). simpl in Hb. lra.
  - destruct n; [contradiction|]. f_equal. apply IH; [|lia|exact Hx].
    intros i Hi. apply (Hb (S i)). lia.
Qed.

Lemma searchsorted_zero : searchsorted gtab_angles 0 = 0%nat.
Proof.
  apply searchsorted_unique; [lia | rewrite gtab_angles_length; lia |].
  rewrite gtab_angles_nth by lia. simpl INR. lra.
Qed.

Lemma searchsorted_full_turn : searchsorted gtab_angles (2 * PI) = 256%nat.
Proof.
  apply searchsorted_unique.
  - intros i Hi. rewrite gtab_angles_nth by lia.
    apply lt_INR in Hi. rewrite INR_256 in Hi. pose proof PI_RGT_0. nra.
  - rewrite gtab_angles_length. lia.
  - rewrite gtab_angles_nth, INR_256 by lia. right. field.
Qed.

Lemma cmap_table_zero : cmap_table 0 = Ok (nth 0 gtab rgb0).
Proof.
  unfold cmap_table, interp1d.
  pose proof (gtab_angles_nth 0%nat ltac:(lia)) as H0. simpl INR in H0.
  replace (2 * PI * 0 / 256) with 0 in H0 by field.
  rewrite H0, gtab_angles_last, searchsorted_zero, gtab_angles_length.
  pose proof PI_RGT_0.
  destruct (Rlt_dec 0 0) as [|_]; [lra|].
  destruct (Rlt_dec (2 * PI) 0) as [|_]; [lra|].
  change (Nat.min (Nat.max 0 1) (257 - 1)) with 1%nat.
  change (1 - 1)%nat with 0%nat. rewrite H0.
  destruct (nth 0 gtab rgb0) as [[r0 g0] b0].
  destruct (nth 1 gtab rgb0) as [[r1 g1] b1].
  simpl. do 3 f_equal; unfold Rdiv; ring.
Qed.

Lemma cmap_table_full_turn : cmap_table (2 * PI) = Ok (nth 256 gtab rgb0).
Proof.
  unfold cmap_table, interp1d.
  pose proof (gtab_angles_nth 0%nat ltac:(lia)) as H0. simpl INR in H0.
  replace (2 * PI * 0 / 256) with 0 in H0 by field.
  rewrite H0, gtab_angles_last, searchsorted_full_turn, gtab_angles_length.
  pose proof PI_RGT_0.
  destruct (Rlt_dec (2 * PI) 0) as [|_]; [lra|].
  destruct (Rlt_dec (2 * PI) (2 * PI)) as [|_]; [lra|].
  change (Nat.min (Nat.max 256 1) (257 - 1)) with 256%nat.
  change (256 - 1)%nat with 255%nat.
  rewrite !gtab_angles_nth by lia. rewrite INR_256.
  replace (INR 255) with 255 by (rewrite INR_IZR_INZ; reflexivity).
  destruct (nth 255 gtab rgb0) as [[r0 g0] b0].
  destruct (nth 256 gtab rgb0) as [[r1 g1] b1].
  simpl. do 3 f_equal; field; lra.
Qed.

(** C9: the table that [gopimage] interpolates has 257 entries, the 256
    entries of [GOPTABLE] followed by a copy of entry 0; its angle axis has
    the 257 values [i * (2 pi / 256)], from 0 to [2 pi]; and the interpolant
    takes the same value, entry 0, at angle 0 and at angle [2 pi]. *)
Theorem hue_table_cyclic :
  length GOPTABLE = 256%nat /\
  length gtab = 257%nat /\
  firstn 256 gtab = map rgb_of_Q GOPTABLE /\
  nth 256 gtab rgb0 = nth 0 gtab rgb0 /\
  gtab_angles = map (fun i : nat => INR i * (2 * PI / 256)) (seq 0 257) /\
  nth 0 gtab_angles 0 = 0 /\
  nth 256 gtab_angles 0 = 2 * PI /\
  cmap_table 0 = Ok (nth 0 gtab rgb0) /\
  cmap_table (2 * PI) = Ok (nth 0 gtab rgb0) /\
  cmap_table 0 = cmap_table (2 * PI).
Proof.
  assert (Hwrap : nth 256 gtab rgb0 = nth 0 gtab rgb0) by reflexivity.
  split; [reflexivity|]. split; [reflexivity|]. split; [reflexivity|].
  split; [exact Hwrap|]. split.
  { unfold gtab_angles. apply map_ext. intros i. field. }
  split. { rewrite gtab_angles_nth by lia. simpl INR. field. }
  split. { rewrite gtab_angles_nth, INR_256 by lia. field. }
  split; [apply cmap_table_zero|].
  split; [rewrite cmap_table_full_turn, Hwrap; reflexivity|].
  rewrite cmap_table_zero, cmap_table_full_turn, Hwrap. reflexivity.
Qed.

End InterpFacts.

(** * gopimage: what a run computes *)

Module GopFacts.
Import Field InterpFacts.
Local Open Scope R_scope.

Lemma mapM_total {A B} (f : A -> result B) (g : A -> B) (l : list A) :
  (forall a, In a l -> f a = Ok (g a)) -> result_mapM f l = Ok (map g l).
Proof.
  induction l as [|a l IH]; intros H; simpl; [reflexivity|].
  rewrite (H a (or_introl eq_refl)), IH; [reflexivity|].
  intros b Hb. apply H. now right.
Qed.

Lemma zip_with_maps {A B C D} (f : B -> C -> D) (g : A -> B) (h : A -> C) (l : list A) :
  zip_with f (map g l) (map h l) = map (fun a => f (g a) (h a)) l.
Proof. induction l as [|a l IH]; simpl; [reflexivity | now rewrite IH]. Qed.

(** Lines 121-131 raise nothing on [rows * cols] elements. *)
Lemma colour_code_ok scale rows cols ws :
  length ws = (rows * cols)%nat ->
  colour_code scale rows cols ws = Ok (Image3 rows cols (map (pixel_of scale) ws)).
Proof.
  intros Hlen. unfold colour_code.
  rewrite (mapM_total cmap_table cmap_value).
  2:{ intros a Ha. apply in_map_iff in Ha as (w & <- & _).
      apply cmap_value_ok, clip_range. }
  simpl. unfold reshape3. rewrite !length_map, Hlen, Nat.eqb_refl. simpl.
  rewrite map_map, zip_with_maps. reflexivity.
Qed.

Lemma colour_code_cases scale rows cols ws :
  (exists g, colour_code scale rows cols ws = Ok g) \/
  colour_code scale rows cols ws = Raise (ValueError "cannot reshape array").
Proof.
  unfold colour_code.
  rewrite (mapM_total cmap_table cmap_value).
  2:{ intros a Ha. apply in_map_iff in Ha as (w & <- & _).
      apply cmap_value_ok, clip_range. }
  simpl. unfold reshape3. destruct (_ =? _)%nat; simpl; eauto.
Qed.

Lemma normalize_map_zero (ws : list complex) : map (normalize 0) ws = ws.
Proof.
  rewrite <- (map_id ws) at 2. apply map_ext. intros z. unfold normalize.
  destruct (Req_dec_T 0 0); [reflexivity | contradiction].
Qed.

Lemma normalize_map_nonzero (m : R) (ws : list complex) :
  m <> 0 -> map (fun z => Cdiv z (of_real m)) ws = map (normalize m) ws.
Proof.
  intros Hm. apply map_ext. intros z. unfold normalize.
  destruct (Req_dec_T m 0); [contradiction | reflexivity].
Qed.

(** The value of a run, without the store: the shape test, the peak
    magnitude of [W], and lines 121-131 on the normalized [W]. *)
Lemma gopimage_value σ v V scale :
  σ !! v = Some V ->
  snd (gopimage v scale σ) =
    if accepts V then
      result_bind (np_max (map Cabs (field_samples V))) (fun m =>
        colour_code scale (nth 0 (shape V) 0%nat) (nth 1 (shape V) 0%nat)
                    (map (normalize m) (field_samples V)))
    else Raise (ValueError shape_msg).
Proof.
  intros Hv. pose proof (lookup_lt_Some _ _ _ Hv) as Hlt.
  unfold gopimage, accepts, field_samples, mbind, ST_bind, load at 1. rewrite Hv.
  destruct ((ndim V =? 2)%nat && np_dtype_eqb (dtype V) np_complex) eqn:HA.
  - (* W is V *)
    cbn [orb]. unfold mret, ST_ret, load at 1. rewrite Hv. unfold lift at 1.
    destruct (np_max (map Cabs (flat V))) as [m|e]; [|reflexivity].
    cbn [result_bind].
    destruct (Req_dec_T m 0) as [->|Hm].
    + unfold load, lift. rewrite !Hv. rewrite normalize_map_zero. reflexivity.
    + unfold idiv, load, lift. rewrite Hv.
      rewrite list_lookup_insert_eq by exact Hlt. cbn beta iota.
      rewrite list_lookup_insert_eq by exact Hlt. cbn [shape flat snd].
      rewrite normalize_map_nonzero by exact Hm. reflexivity.
  - cbn [orb].
    destruct ((ndim V =? 3)%nat && (nth 2 (shape V) 0 =? 2)%nat) eqn:HB;
      [|reflexivity].
    set (W0 := add_1j_mul (index_last V 0) (index_last V 1)).
    unfold alloc, load at 1. rewrite lookup_app_r by lia.
    rewrite Nat.sub_diag. cbn [lookup list_lookup]. unfold lift at 1.
    destruct (np_max (map Cabs (flat W0))) as [m|e]; [|reflexivity].
    cbn [result_bind].
    destruct (Req_dec_T m 0) as [->|Hm].
    + unfold mret, ST_ret, load, lift. rewrite lookup_app_r by lia.
      rewrite Nat.sub_diag. cbn [lookup list_lookup].
      rewrite lookup_app_l by exact Hlt. rewrite Hv.
      rewrite normalize_map_zero. reflexivity.
    + unfold idiv, load, lift. rewrite lookup_app_r by lia.
      rewrite Nat.sub_diag. cbn [lookup list_lookup].
      rewrite list_lookup_insert_eq by (rewrite length_app; simpl; lia).
      rewrite list_lookup_insert_ne by lia.
      rewrite lookup_app_l by exact Hlt. rewrite Hv. cbn [shape flat snd].
      rewrite normalize_map_nonzero by exact Hm. reflexivity.
Qed.

(** The store after a run on a complex 2-D input whose peak is not 0: the
    input array itself holds the divided elements. *)
Lemma gopimage_store_alias σ v V scale m :
  σ !! v = Some V ->
  (ndim V =? 2)%nat && np_dtype_eqb (dtype V) np_complex = true ->
  np_max (map Cabs (flat V)) = Ok m ->
  m <> 0 ->
  fst (gopimage v scale σ)
  = <[v := NdArray (dtype V) (shape V)
                   (map (fun z => Cdiv z (of_real m)) (flat V))]> σ.
Proof.
  intros Hv HA Hmax Hm. pose proof (lookup_lt_Some _ _ _ Hv) as Hlt.
  unfold gopimage, mbind, ST_bind, load at 1. rewrite Hv, HA.
  unfold mret, ST_ret, load at 1. rewrite Hv. unfold lift at 1. rewrite Hmax.
  destruct (Req_dec_T m 0) as [|_]; [contradiction|].
  unfold idiv, load, lift. rewrite Hv.
  rewrite list_lookup_insert_eq by exact Hlt. cbn beta iota.
  rewrite list_lookup_insert_eq by exact Hlt. reflexivity.
Qed.

(** The store after a run on any other input: the input array is as it was
    (the run works on an array of its own, or raises before it writes). *)
Lemma gopimage_store_fresh σ v V scale :
  σ !! v = Some V ->
  (ndim V =? 2)%nat && np_dtype_eqb (dtype V) np_complex = false ->
  fst (gopimage v scale σ) !! v = Some V.
Proof.
  intros Hv HA. pose proof (lookup_lt_Some _ _ _ Hv) as Hlt.
  unfold gopimage, mbind, ST_bind, load at 1. rewrite Hv, HA.
  destruct ((ndim V =? 3)%nat && (nth 2 (shape V) 0 =? 2)%nat); [|exact Hv].
  set (W0 := add_1j_mul (index_last V 0) (index_last V 1)).
  assert (Hv' : forall X, (σ ++ [X]) !! v = Some V)
    by (intros X; rewrite lookup_app_l by exact Hlt; exact Hv).
  unfold alloc, load at 1. rewrite lookup_app_r by lia.
  rewrite Nat.sub_diag. cbn [lookup list_lookup]. unfold lift at 1.
  destruct (np_max (map Cabs (flat W0))) as [m|e]; [|apply Hv'].
  destruct (Req_dec_T m 0) as [->|Hm].
  - unfold mret, ST_ret, load, lift. rewrite lookup_app_r by lia.
    rewrite Nat.sub_diag. cbn [lookup list_lookup]. rewrite Hv'. apply Hv'.
  - unfold idiv, load, lift. rewrite lookup_app_r by lia.
    rewrite Nat.sub_diag. cbn [lookup list_lookup].
    rewrite list_lookup_insert_eq by (rewrite length_app; simpl; lia).
    rewrite list_lookup_insert_ne by lia.
    rewrite Hv'. cbn [fst]. rewrite list_lookup_insert_ne by lia. apply Hv'.
Qed.

End GopFacts.

(** * Motion fields: samples and peak magnitude *)

Module FieldFacts.
Import Field InterpFacts GopFacts.
Local Open Scope R_scope.

Lemma np_dtype_eqb_eq (a b : np_dtype) : np_dtype_eqb a b = true <-> a = b.
Proof. destruct a, b; simpl; split; intros H; congruence. Qed.

Lemma accepts_spec (V : ndarray) :
  accepts V = false <->
  ~ (ndim V = 2%nat /\ dtype V = np_complex) /\
  ~ (ndim V = 3%nat /\ nth 2 (shape V) 0%nat = 2%nat).
Proof.
  unfold accepts. rewrite orb_false_iff, !andb_false_iff, !Nat.eqb_neq.
  rewrite <- not_true_iff_false, np_dtype_eqb_eq. tauto.
Qed.

Lemma Cabs_nonneg (z : complex) : 0 <= Cabs z.
Proof. apply sqrt_pos. Qed.

Lemma Cabs_zero_inv (z : complex) : Cabs z = 0 -> z = C0.
Proof.
  destruct z as [x y]. unfold Cabs, C0. simpl. intros H.
  apply sqrt_eq_0 in H; [|nra].
  assert (x = 0) by nra. assert (y = 0) by nra. subst. reflexivity.
Qed.

Lemma Cabs_scale (c : R) (z : complex) :
  0 <= c -> Cabs (Cx (c * re z) (c * im z)) = c * Cabs z.
Proof.
  intros Hc. unfold Cabs. simpl.
  replace (c * re z * (c * re z) + c * im z * (c * im z))
    with ((c * c) * (re z * re z + im z * im z)) by ring.
  rewrite sqrt_mult; [|nra|nra]. rewrite sqrt_square by exact Hc. reflexivity.
Qed.

(** Dividing by the real [m], as [Cdiv] does it, divides both parts. *)
Lemma Cdiv_of_real (z : complex) (m : R) :
  m <> 0 -> Cdiv z (of_real m) = Cx (re z / m) (im z / m).
Proof. intros Hm. unfold Cdiv, of_real. simpl. f_equal; field; exact Hm. Qed.

Lemma normalize_scaled_sample (m : R) (z : complex) :
  normalize m z = scaled_sample m z.
Proof.
  unfold normalize, scaled_sample. destruct (Req_dec_T m 0); [reflexivity|].
  now apply Cdiv_of_real.
Qed.

Lemma fold_Rmax_spec (l : list R) (a : R) :
  In (fold_left Rmax l a) (a :: l) /\ forall x, In x (a :: l) -> x <= fold_left Rmax l a.
Proof.
  revert a. induction l as [|b l IH]; intros a; simpl.
  - split; [now left | intros x [<-|[]]; lra].
  - destruct (IH (Rmax a b)) as [Hin Hle]. split.
    + destruct Hin as [Heq | Hin]; [| now right; right].
      rewrite <- Heq. unfold Rmax. destruct (Rle_dec a b); tauto.
    + pose proof (Hle (Rmax a b) (or_introl eq_refl)) as Hab.
      pose proof (Rmax_l a b). pose proof (Rmax_r a b).
      intros x [<-|[<-|Hx]]; [lra | lra |]. apply Hle. now right.
Qed.

Lemma fold_Rmax_scale (c : R) (l : list R) (a : R) :
  0 <= c -> fold_left Rmax (map (Rmult c) l) (c * a) = c * fold_left Rmax l a.
Proof.
  intros Hc. revert a. induction l as [|b l IH]; intros a; simpl; [reflexivity|].
  rewrite RmaxRmult by exact Hc. apply IH.
Qed.

Lemma np_max_nonempty (l : list R) :
  l <> [] ->
  exists m, np_max l = Ok m /\ In m l /\ forall x, In x l -> x <= m.
Proof.
  destruct l as [|a l]; [congruence|]. intros _.
  exists (fold_left Rmax l a). split; [reflexivity | apply fold_Rmax_spec].
Qed.

Lemma nth_map_default {A B} (f : A -> B) (l : list A) (d : A) (e : B) (n : nat) :
  f d = e -> nth n (map f l) e = f (nth n l d).
Proof. intros <-. apply map_nth. Qed.

(** The elements of [W] for a real field: [x + 1j * y] is the pair [(x, y)]. *)
Lemma field_samples_real (V : ndarray) (rows cols : nat) :
  wf_array V -> shape V = [rows; cols; 2%nat] -> is_real_dtype (dtype V) = true ->
  field_samples V
  = map (fun k => Cx (re (nth (k * 2 + 0) (flat V) C0))
                     (re (nth (k * 2 + 1) (flat V) C0)))
        (seq 0 (rows * cols)).
Proof.
  intros [Hlen Hre] Hsh Hdt. specialize (Hre Hdt).
  unfold field_samples, ndim. rewrite Hsh. cbn [length Nat.eqb andb].
  unfold add_1j_mul, index_last. rewrite Hsh. cbn [flat dtype shape removelast List.last fold_right].
  rewrite zip_with_maps. rewrite Nat.mul_1_r.
  unfold size in Hlen. rewrite Hsh in Hlen. cbn [fold_right] in Hlen.
  apply map_ext_in. intros k Hk. apply in_seq in Hk.
  assert (Him : forall n, (n < length (flat V))%nat -> im (nth n (flat V) C0) = 0).
  { intros n Hn. rewrite List.Forall_forall in Hre. apply Hre, nth_In, Hn. }
  pose proof (Him (k * 2 + 0)%nat ltac:(nia)) as H0.
  pose proof (Him (k * 2 + 1)%nat ltac:(nia)) as H1.
  unfold Cadd, Cmul, Ci. cbn [re im]. rewrite H0, H1. f_equal; ring.
Qed.

Lemma valid_field_accepts (V : ndarray) (rows cols : nat) :
  valid_field V rows cols ->
  accepts V = true /\
  nth 0 (shape V) 0%nat = rows /\ nth 1 (shape V) 0%nat = cols /\
  length (field_samples V) = (rows * cols)%nat /\
  forall i j, (i < rows)%nat -> (j < cols)%nat ->
    nth (i * cols + j) (field_samples V) C0 = sample_at V i j.
Proof.
  intros [Hwf [[Hsh Hdt] | [Hsh Hdt]]].
  - unfold accepts, field_samples, sample_at, ndim. rewrite Hsh, Hdt. simpl.
    destruct Hwf as [Hlen _]. unfold size in Hlen. rewrite Hsh in Hlen.
    simpl in Hlen. repeat split; try reflexivity. rewrite Hlen. f_equal. lia.
  - pose proof (field_samples_real V rows cols Hwf Hsh Hdt) as Hfs.
    rewrite Hfs. unfold accepts, sample_at, ndim. rewrite Hsh. cbn [length nth Nat.eqb andb].
    rewrite orb_true_r. repeat split; try reflexivity.
    + now rewrite length_map, length_seq.
    + intros i j Hi Hj.
      rewrite nth_map_seq by nia. reflexivity.
Qed.

Lemma index_split (k rows cols : nat) :
  (k < rows * cols)%nat ->
  exists i j, (i < rows)%nat /\ (j < cols)%nat /\ k = (i * cols + j)%nat.
Proof.
  intros Hk. assert (cols <> 0)%nat by nia.
  exists (k / cols)%nat, (k mod cols)%nat. split; [|split].
  - apply Nat.Div0.div_lt_upper_bound. lia.
  - now apply Nat.mod_upper_bound.
  - pose proof (Nat.div_mod_eq k cols). lia.
Qed.

(** [np.max(np.abs(W))] of a field with at least one vector is its peak
    magnitude. *)
Lemma peak_exists (V : ndarray) (rows cols : nat) :
  valid_field V rows cols -> (0 < rows * cols)%nat ->
  exists m, np_max (map Cabs (field_samples V)) = Ok m /\ is_peak m V rows cols.
Proof.
  intros Hv Hpos.
  destruct (valid_field_accepts V rows cols Hv) as (_ & _ & _ & Hlen & Hnth).
  destruct (np_max_nonempty (map Cabs (field_samples V))) as (m & Hm & Hin & Hub).
  { intros E. apply (f_equal (@length R)) in E. rewrite length_map, Hlen in E.
    simpl in E. lia. }
  exists m. split; [exact Hm|]. split.
  - apply in_map_iff in Hin as (z & Hz & Hin).
    apply (In_nth _ _ C0) in Hin as (k & Hk & Hzk). rewrite Hlen in Hk.
    destruct (index_split k rows cols Hk) as (i & j & Hi & Hj & ->).
    exists i, j. split; [exact Hi|]. split; [exact Hj|].
    rewrite <- Hnth by assumption. now rewrite Hzk.
  - intros i j Hi Hj. apply Hub. apply in_map_iff.
    exists (sample_at V i j). split; [reflexivity|].
    rewrite <- Hnth by assumption. apply nth_In. rewrite Hlen. nia.
Qed.

(** A run on a valid field with at least one vector: nothing is raised and
    the image holds [pixel_of] of every normalized sample. *)
Lemma gopimage_valid σ v V scale rows cols :
  σ !! v = Some V -> valid_field V rows cols -> (0 < rows * cols)%nat ->
  exists m,
    is_peak m V rows cols /\
    np_max (map Cabs (field_samples V)) = Ok m /\
    snd (gopimage v scale σ)
    = Ok (Image3 rows cols
            (map (pixel_of scale) (map (normalize m) (field_samples V)))).
Proof.
  intros Hl Hv Hpos.
  destruct (peak_exists V rows cols Hv Hpos) as (m & Hm & Hpk).
  destruct (valid_field_accepts V rows cols Hv) as (Hacc & Hr & Hc & Hlen & _).
  exists m. split; [exact Hpk|]. split; [exact Hm|].
  rewrite (gopimage_value σ v V scale Hl), Hacc, Hm. cbn [result_bind].
  rewrite Hr, Hc. apply colour_code_ok. now rewrite length_map.
Qed.


(** ** Scaling a field by a positive constant, in exact arithmetic *)

Lemma times_branch (c : R) (V : ndarray) :
  (ndim (times c V) =? 2)%nat && np_dtype_eqb (dtype (times c V)) np_complex
  = (ndim V =? 2)%nat && np_dtype_eqb (dtype V) np_complex.
Proof. unfold times, ndim. simpl. destruct (dtype V); reflexivity. Qed.

Lemma accepts_times (c : R) (V : ndarray) : accepts (times c V) = accepts V.
Proof. unfold accepts. rewrite times_branch. reflexivity. Qed.

Lemma field_samples_times (c : R) (V : ndarray) :
  field_samples (times c V)
  = map (fun z => Cx (c * re z) (c * im z)) (field_samples V).
Proof.
  unfold field_samples. rewrite times_branch.
  destruct ((ndim V =? 2)%nat && np_dtype_eqb (dtype V) np_complex); [reflexivity|].
  unfold add_1j_mul, index_last, times. cbn [flat shape dtype].
  rewrite !zip_with_maps, map_map. apply map_ext. intros k.
  rewrite !(nth_map_default _ _ C0 C0) by (unfold C0; cbn [re im]; f_equal; ring).
  unfold Cadd, Cmul, Ci. cbn [re im]. f_equal; ring.
Qed.

Lemma np_max_times (c m : R) (ws : list complex) :
  0 <= c ->
  np_max (map Cabs ws) = Ok m ->
  np_max (map Cabs (map (fun z => Cx (c * re z) (c * im z)) ws)) = Ok (c * m).
Proof.
  intros Hc. destruct ws as [|a l]; [discriminate|]. simpl.
  intros H. injection H as <-. f_equal.
  rewrite Cabs_scale by exact Hc.
  rewrite <- fold_Rmax_scale by exact Hc. f_equal.
  rewrite !map_map. apply map_ext. intros z. now apply Cabs_scale.
Qed.

Lemma normalize_times (c m : R) (z : complex) :
  c <> 0 -> m <> 0 ->
  normalize (c * m) (Cx (c * re z) (c * im z)) = normalize m z.
Proof.
  intros Hc Hm. unfold normalize.
  destruct (Req_dec_T (c * m) 0) as [E|_]; [exfalso; nra|].
  destruct (Req_dec_T m 0) as [|_]; [contradiction|].
  rewrite !Cdiv_of_real by nra. cbn [re im]. f_equal; field; split; assumption.
Qed.

Lemma peak_nonzero (m : R) (V : ndarray) (rows cols : nat) :
  is_peak m V rows cols ->
  (exists i j, (i < rows)%nat /\ (j < cols)%nat /\ sample_at V i j <> C0) ->
  m <> 0.
Proof.
  intros [_ Hub] (i & j & Hi & Hj & Hnz) ->.
  specialize (Hub i j Hi Hj). pose proof (Cabs_nonneg (sample_at V i j)).
  apply Hnz, Cabs_zero_inv. lra.
Qed.

End FieldFacts.

(** * gopimage with a scale that need not be finite *)

Module ScaleFacts.
Import Field Field2 Scale InterpFacts GopFacts FieldFacts.
Local Open Scope R_scope.








End ScaleFacts.

(** * gopimage: the claims *)

Module GopClaims.
Import Field Field2 Scale InterpFacts GopFacts FieldFacts ScaleFacts.
Local Open Scope R_scope.

Lemma lookup_map_nth {A B} (f : A -> B) (l : list A) (d : A) (k : nat) :
  (k < length l)%nat -> map f l !! k = Some (f (nth k l d)).
Proof.
  intros Hk. rewrite list_lookup_fmap.
  destruct (l !! k) as [a|] eqn:E.
  - simpl. f_equal. f_equal. symmetry. apply nth_lookup_Some with (d := d) in E.
    exact E.
  - apply lookup_ge_None in E. lia.
Qed.

(** C1: for a field in one of the two accepted forms (with at least one
    vector) and any scale, [gopimage] computes an image whose pixel at every
    spatial index [(i, j)] is the colour of the hue angle, every channel
    multiplied by the intensity, where [w] is the sample divided by the peak
    magnitude of the field (left alone when the peak is 0), the intensity is
    [min (1, scale * |w|)] and the hue angle handed to the interpolant is
    [clip (pi + angle (-w), 0, 2 pi)]. *)
Theorem gopimage_pixels σ v V scale rows cols :
  σ !! v = Some V ->
  valid_field V rows cols ->
  (0 < rows * cols)%nat ->
  exists g max_mag,
    snd (gopimage v scale σ) = Ok g /\
    is_peak max_mag V rows cols /\
    forall i j, (i < rows)%nat -> (j < cols)%nat ->
      let w := scaled_sample max_mag (sample_at V i j) in
      let intensity := Rmin 1 (scale * Cabs w) in
      let hue := clip (PI + angle (Cneg w)) 0 (2 * PI) in
      exists c,
        cmap_table hue = Ok c /\
        pixel_at g i j = Some (rgb_scale intensity c).
Proof.
  intros Hl Hv Hpos.
  destruct (gopimage_valid σ v V scale rows cols Hl Hv Hpos) as (m & Hpk & _ & Hrun).
  destruct (valid_field_accepts V rows cols Hv) as (_ & _ & _ & Hlen & Hnth).
  eexists. exists m. split; [exact Hrun|]. split; [exact Hpk|].
  intros i j Hi Hj w intensity hue.
  exists (cmap_value hue). split.
  - apply cmap_value_ok, clip_range.
  - unfold pixel_at. cbn [pixels icols]. rewrite map_map.
    rewrite (lookup_map_nth _ _ C0) by (rewrite Hlen; nia).
    rewrite Hnth by assumption. rewrite normalize_scaled_sample. reflexivity.
Qed.

Lemma quad_field_valid : valid_field quad_field 2 2.
Proof.
  split; [split|].
  - reflexivity.
  - intros _. repeat constructor.
  - right. split; reflexivity.
Qed.

Lemma gopimage_pixels_witness :
  [quad_field] !! 0%nat = Some quad_field /\
  valid_field quad_field 2 2 /\
  (0 < 2 * 2)%nat /\
  exists g max_mag,
    snd (gopimage 0%nat 1 [quad_field]) = Ok g /\
    is_peak max_mag quad_field 2 2 /\
    forall i j, (i < 2)%nat -> (j < 2)%nat ->
      let w := scaled_sample max_mag (sample_at quad_field i j) in
      let intensity := Rmin 1 (1 * Cabs w) in
      let hue := clip (PI + angle (Cneg w)) 0 (2 * PI) in
      exists c,
        cmap_table hue = Ok c /\
        pixel_at g i j = Some (rgb_scale intensity c).
Proof.
  split; [reflexivity|]. split; [exact quad_field_valid|]. split; [lia|].
  apply (gopimage_pixels [quad_field] 0%nat quad_field 1 2 2);
    [reflexivity | exact quad_field_valid | lia].
Defined.








Lemma peak_of_unit_complex_field :
  np_max (map Cabs (flat unit_complex_field)) = Ok 2.
Proof.
  simpl. unfold Cabs. simpl. f_equal.
  replace (2 * 2 + 0 * 0) with (2 * 2) by ring. apply sqrt_square. lra.
Qed.

(** C2: on the complex 1 x 1 field holding 2 + 0j the run leaves 1 + 0j in
    the caller's array: [W = V] makes [W] the input array itself, and
    [W /= max_mag] divides it in place. *)
Theorem gopimage_overwrites_complex_input :
  fst (gopimage 0%nat 1 [unit_complex_field]) !! 0%nat
    = Some (NdArray complex128 [1; 1]%nat [Cx 1 0]) /\
  fst (gopimage 0%nat 1 [unit_complex_field]) !! 0%nat <> Some unit_complex_field.
Proof.
  assert (E : fst (gopimage 0%nat 1 [unit_complex_field]) !! 0%nat
              = Some (NdArray complex128 [1; 1]%nat [Cx 1 0])).
  { rewrite (gopimage_store_alias _ _ unit_complex_field 1 2);
      [| reflexivity | reflexivity | exact peak_of_unit_complex_field | lra].
    simpl. rewrite Cdiv_of_real by lra. simpl. do 4 f_equal; field. }
  split; [exact E|]. rewrite E. unfold unit_complex_field.
  intros H. injection H as H. lra.
Qed.

(** The other form of input is safe: a run on an array of shape
    [(rows, cols, 2)] leaves that array as it was. *)
Lemma gopimage_keeps_real_input σ v V scale rows cols :
  σ !! v = Some V -> shape V = [rows; cols; 2%nat] ->
  fst (gopimage v scale σ) !! v = Some V.
Proof.
  intros Hv Hsh. apply gopimage_store_fresh; [exact Hv|].
  unfold ndim. rewrite Hsh. reflexivity.
Qed.

Lemma accepted_not_shape_error σ v V scale :
  σ !! v = Some V -> accepts V = true ->
  snd (gopimage v scale σ) <> Raise (ValueError shape_msg).
Proof.
  intros Hv Hacc. rewrite (gopimage_value σ v V scale Hv), Hacc.
  destruct (np_max (map Cabs (field_samples V))) as [m|e] eqn:Hmax.
  - cbn [result_bind].
    destruct (colour_code_cases scale (nth 0 (shape V) 0%nat) (nth 1 (shape V) 0%nat)
                (map (normalize m) (field_samples V))) as [[g ->] | ->];
      discriminate.
  - cbn [result_bind]. unfold np_max in Hmax.
    destruct (map Cabs (field_samples V)); [|discriminate].
    injection Hmax as <-. discriminate.
Qed.

(** C5, as stated, fails in both directions: a complex array of shape
    (1, 1, 2) is neither a real [(rows, cols, 2)] array nor a complex
    [(rows, cols)] array and is not refused, and a [complex64] array of
    shape (1, 1) is a complex [(rows, cols)] array and is refused. *)
Lemma gopimage_shape_test_mismatch :
  (is_real_dtype (dtype complex_pairs) = false /\
   ndim complex_pairs <> 2%nat /\
   snd (gopimage 0%nat 1 [complex_pairs]) <> Raise (ValueError shape_msg)) /\
  (is_real_dtype (dtype single_precision_field) = false /\
   shape single_precision_field = [1; 1]%nat /\
   snd (gopimage 0%nat 1 [single_precision_field]) = Raise (ValueError shape_msg)).
Proof.
  split; split; try reflexivity; split; try reflexivity.
  - unfold ndim. simpl. lia.
  - apply (accepted_not_shape_error _ _ complex_pairs); reflexivity.
Qed.

(** C5, amended: [gopimage] does not raise the [ValueError] whose message
    names the two shapes for a 2-D array of dtype [np.complex]
    ([complex128]) nor for a 3-D array whose last axis has length 2, whatever
    the dtype of the latter; it raises it for every array that is not 3-D
    with a last axis of length 2 and is either not 2-D or 2-D of a real
    dtype.  Nothing is said of a 2-D array of another complex dtype. *)
Theorem gopimage_shape_error σ v V scale :
  σ !! v = Some V ->
  shape_msg = "Input must be real MxNx2 array, or complex MxN array"%string /\
  ((ndim V = 2%nat /\ dtype V = np_complex) \/
   (ndim V = 3%nat /\ nth 2 (shape V) 0%nat = 2%nat) ->
   snd (gopimage v scale σ) <> Raise (ValueError shape_msg)) /\
  (~ (ndim V = 3%nat /\ nth 2 (shape V) 0%nat = 2%nat) ->
   ndim V <> 2%nat \/ is_real_dtype (dtype V) = true ->
   snd (gopimage v scale σ) = Raise (ValueError shape_msg)).
Proof.
  intros Hv. split; [reflexivity|]. split.
  - intros Hform. apply (accepted_not_shape_error σ v V scale Hv).
    destruct (accepts V) eqn:Hacc; [reflexivity|].
    apply accepts_spec in Hacc. tauto.
  - intros H3 H2.
    assert (Hacc : accepts V = false).
    { apply accepts_spec. split; [|exact H3].
      intros [Hn Hd]. destruct H2 as [H2|H2]; [contradiction|].
      rewrite Hd in H2. discriminate. }
    rewrite (gopimage_value σ v V scale Hv), Hacc. reflexivity.
Qed.

Lemma gopimage_shape_error_witness :
  [complex_pairs] !! 0%nat = Some complex_pairs /\
  shape_msg = "Input must be real MxNx2 array, or complex MxN array"%string /\
  ((ndim complex_pairs = 2%nat /\ dtype complex_pairs = np_complex) \/
   (ndim complex_pairs = 3%nat /\ nth 2 (shape complex_pairs) 0%nat = 2%nat) ->
   snd (gopimage 0%nat 1 [complex_pairs]) <> Raise (ValueError shape_msg)) /\
  (~ (ndim complex_pairs = 3%nat /\ nth 2 (shape complex_pairs) 0%nat = 2%nat) ->
   ndim complex_pairs <> 2%nat \/ is_real_dtype (dtype complex_pairs) = true ->
   snd (gopimage 0%nat 1 [complex_pairs]) = Raise (ValueError shape_msg)).
Proof.
  split; [reflexivity|].
  apply (gopimage_shape_error [complex_pairs] 0%nat complex_pairs 1).
  reflexivity.
Defined.




(** In exact arithmetic, multiplying every vector of a valid field that has
    a nonzero vector by a constant [c > 0] does not change the image: the
    peak magnitude is multiplied by [c] too, and the quotient is the same
    real number.  (Rounded float64 quotients need not be the same.) *)
Lemma scale_invariant_exact σ σ' v v' V c scale rows cols :
  σ !! v = Some V ->
  σ' !! v' = Some (times c V) ->
  valid_field V rows cols ->
  (exists i j, (i < rows)%nat /\ (j < cols)%nat /\ sample_at V i j <> C0) ->
  0 < c ->
  exists g,
    snd (gopimage v scale σ) = Ok g /\
    snd (gopimage v' scale σ') = Ok g.
Proof.
  intros Hl Hl' Hv Hnz Hc.
  assert (Hpos : (0 < rows * cols)%nat) by (destruct Hnz as (i & j & ? & ? & _); nia).
  destruct (gopimage_valid σ v V scale rows cols Hl Hv Hpos) as (m & Hpk & Hmax & Hrun).
  destruct (valid_field_accepts V rows cols Hv) as (Hacc & Hr & Hcs & Hlen & _).
  pose proof (peak_nonzero m V rows cols Hpk Hnz) as Hm.
  eexists. split; [exact Hrun|].
  rewrite (gopimage_value σ' v' (times c V) scale Hl'), accepts_times, Hacc.
  rewrite field_samples_times.
  rewrite (np_max_times c m) by (lra || exact Hmax). cbn [result_bind].
  rewrite map_map.
  rewrite (map_ext (fun z => normalize (c * m) (Cx (c * re z) (c * im z))) (normalize m))
    by (intros z; apply normalize_times; lra).
  change (shape (times c V)) with (shape V). rewrite Hr, Hcs.
  apply colour_code_ok. now rewrite length_map.
Qed.

End GopClaims.

(** * Further properties of gopimage *)

Module GopExtra.
Import Field Field2 InterpFacts GopFacts FieldFacts.
Local Open Scope R_scope.




Lemma pair_field_valid : valid_field pair_field 1 2.
Proof.
  split; [split|].
  - reflexivity.
  - intros _. repeat constructor.
  - right. split; reflexivity.
Qed.







(** X6: a field of an accepted form without any vector (no rows or no
    columns) passes the shape test and then makes [np.max] raise
    [ValueError]; no image is computed. *)
Theorem gopimage_no_vectors σ v V scale rows cols :
  σ !! v = Some V ->
  valid_field V rows cols ->
  (rows * cols = 0)%nat ->
  snd (gopimage v scale σ)
  = Raise (ValueError
      "zero-size array to reduction operation maximum which has no identity").
Proof.
  intros Hl Hv Hz.
  destruct (valid_field_accepts V rows cols Hv) as (Hacc & _ & _ & Hlen & _).
  rewrite (gopimage_value σ v V scale Hl), Hacc.
  rewrite Hz in Hlen. destruct (field_samples V); [reflexivity | discriminate].
Qed.

Lemma gopimage_no_vectors_witness :
  [no_rows_field] !! 0%nat = Some no_rows_field /\
  valid_field no_rows_field 0 2 /\
  (0 * 2 = 0)%nat /\
  snd (gopimage 0%nat 1 [no_rows_field])
  = Raise (ValueError
      "zero-size array to reduction operation maximum which has no identity").
Proof.
  assert (Hv : valid_field no_rows_field 0 2).
  { split; [split|]; [reflexivity | intros _; constructor | right; split; reflexivity]. }
  split; [reflexivity|]. split; [exact Hv|]. split; [reflexivity|].
  apply (gopimage_no_vectors [no_rows_field] 0%nat no_rows_field 1 0 2);
    [reflexivity | exact Hv | reflexivity].
Defined.

Lemma same_samples (V V' : ndarray) (rows cols : nat) :
  valid_field V rows cols -> valid_field V' rows cols ->
  (forall i j, (i < rows)%nat -> (j < cols)%nat ->
     sample_at V i j = sample_at V' i j) ->
  field_samples V = field_samples V'.
Proof.
  intros Hv Hv' Hsame.
  destruct (valid_field_accepts V rows cols Hv) as (_ & _ & _ & Hlen & Hnth).
  destruct (valid_field_accepts V' rows cols Hv') as (_ & _ & _ & Hlen' & Hnth').
  apply (nth_ext _ _ C0 C0); [congruence|].
  intros k Hk. rewrite Hlen in Hk.
  destruct (index_split k rows cols Hk) as (i & j & Hi & Hj & ->).
  rewrite Hnth, Hnth' by assumption. now apply Hsame.
Qed.

(** X8: the two input forms are interchangeable.  Two valid fields that
    hold the same vectors, neither of them in single precision (so that [W]
    is a [complex128] array either way), give the same result: the same
    image, or the same exception, in whatever stores they live.  In
    particular a real [(rows, cols, 2)] array and the complex [(rows, cols)]
    array of the same vectors do. *)
Theorem gopimage_form_independent σ σ' v v' V V' scale rows cols :
  σ !! v = Some V ->
  σ' !! v' = Some V' ->
  valid_field V rows cols ->
  valid_field V' rows cols ->
  dtype V <> float32 ->
  dtype V' <> float32 ->
  (forall i j, (i < rows)%nat -> (j < cols)%nat ->
     sample_at V i j = sample_at V' i j) ->
  snd (gopimage v scale σ) = snd (gopimage v' scale σ').
Proof.
  intros Hl Hl' Hv Hv' _ _ Hsame.
  destruct (valid_field_accepts V rows cols Hv) as (Hacc & Hr & Hc & _).
  destruct (valid_field_accepts V' rows cols Hv') as (Hacc' & Hr' & Hc' & _).
  rewrite (gopimage_value σ v V scale Hl), (gopimage_value σ' v' V' scale Hl').
  rewrite Hacc, Hacc', Hr, Hc, Hr', Hc'.
  now rewrite (same_samples V V' rows cols Hv Hv' Hsame).
Qed.

Lemma pair_field_complex_valid : valid_field pair_field_complex 1 2.
Proof.
  split; [split|].
  - reflexivity.
  - intros H. discriminate H.
  - left. split; reflexivity.
Qed.

Lemma pair_fields_agree i j :
  (i < 1)%nat -> (j < 2)%nat ->
  sample_at pair_field i j = sample_at pair_field_complex i j.
Proof.
  intros Hi Hj. assert (i = 0%nat) by lia. subst i.
  destruct j as [|[|j]]; [reflexivity | reflexivity | lia].
Qed.

Lemma gopimage_form_independent_witness :
  [pair_field] !! 0%nat = Some pair_field /\
  [pair_field; pair_field_complex] !! 1%nat = Some pair_field_complex /\
  valid_field pair_field 1 2 /\
  valid_field pair_field_complex 1 2 /\
  dtype pair_field <> float32 /\
  dtype pair_field_complex <> float32 /\
  (forall i j, (i < 1)%nat -> (j < 2)%nat ->
     sample_at pair_field i j = sample_at pair_field_complex i j) /\
  snd (gopimage 0%nat 1 [pair_field])
  = snd (gopimage 1%nat 1 [pair_field; pair_field_complex]).
Proof.
  assert (D1 : dtype pair_field <> float32) by (simpl; discriminate).
  assert (D2 : dtype pair_field_complex <> float32) by (simpl; discriminate).
  split; [reflexivity|]. split; [reflexivity|]. split; [exact pair_field_valid|].
  split; [exact pair_field_complex_valid|]. split; [exact D1|]. split; [exact D2|].
  split; [exact pair_fields_agree|].
  apply (gopimage_form_independent [pair_field] [pair_field; pair_field_complex]
           0%nat 1%nat pair_field pair_field_complex 1 1 2);
    [reflexivity | reflexivity | exact pair_field_valid
     | exact pair_field_complex_valid | exact D1 | exact D2 | exact pair_fields_agree].
Defined.

(** ** The store after a run *)




End GopExtra.

(** * Further properties of image_grid *)

Module GridExtra.
Import Grid Grid2 GridFacts GridClaims.
Local Open Scope Z_scope.














(** X16: under the shared policy one panel without pixels stops the call:
    [np.min] raises [ValueError] on it before the figure is created, so
    nothing is drawn. *)
Theorem image_grid_empty_panel ImageGrid images nrows ncols share opts :
  nrows <> 0 ->
  Exists (fun im => concat im = []) (panel_images images) ->
  image_grid ImageGrid images nrows ncols false share opts []
  = ([], Raise (ValueError (zero_size_msg "minimum"))).
Proof.
  intros Hr Hex.
  destruct (resolve_ncols_ok (count images) nrows ncols Hr) as (c & Hc).
  unfold image_grid, mbind, ST_bind, lift. unfold count in Hc. rewrite Hc.
  unfold compute_norm. now rewrite (mapM_np_min_fails _ Hex).
Qed.

Lemma image_grid_empty_panel_witness :
  2 <> 0 /\
  Exists (fun im => concat im = []) (panel_images with_empty_panel) /\
  image_grid mpl_ImageGrid with_empty_panel 2 None false false [] []
  = ([], Raise (ValueError (zero_size_msg "minimum"))).
Proof.
  assert (Hex : Exists (fun im => concat im = []) (panel_images with_empty_panel)).
  { simpl. apply Exists_cons_tl, Exists_cons_hd. reflexivity. }
  split; [lia|]. split; [exact Hex|].
  apply (image_grid_empty_panel mpl_ImageGrid with_empty_panel 2 None false []);
    [lia | exact Hex].
Defined.

(** X17: the calculated column count wastes no column.  With no column
    count (or 0), at least one panel and [nrows >= 1], the grid has
    [ncols = ceil (count / nrows)] columns: enough for every panel, while
    one column less would not be. *)
Theorem resolve_ncols_least (n nrows : Z) (ncols : option Z) :
  1 <= n -> 1 <= nrows ->
  ncols = None \/ ncols = Some 0 ->
  exists c,
    resolve_ncols n nrows ncols = Ok c /\
    nrows * (c - 1) < n <= nrows * c.
Proof.
  intros Hn Hr Hcols. exists (ceil_div n nrows). split.
  - unfold resolve_ncols. destruct (Z.eqb_spec nrows 0); [lia|].
    destruct Hcols as [-> | ->]; reflexivity.
  - unfold ceil_div.
    pose proof (Z.div_mod (- n) nrows ltac:(lia)) as Hdm.
    pose proof (Z.mod_pos_bound (- n) nrows ltac:(lia)) as Hb.
    split; nia.
Qed.

Lemma resolve_ncols_least_witness :
  1 <= 7 /\ 1 <= 3 /\
  (@None Z = None \/ None = Some 0) /\
  exists c, resolve_ncols 7 3 None = Ok c /\ 3 * (c - 1) < 7 <= 3 * c.
Proof.
  split; [lia|]. split; [lia|]. split; [now left|].
  apply (resolve_ncols_least 7 3 None); [lia | lia | now left].
Defined.

End GridExtra.
